(** * Recommendation tables of the Flutter advisory scripts

    The repository holds three scripts of the same shape,

      - [skills/database-storage/scripts/storage_selector.py]
      - [skills/performance/scripts/perf_analyzer.py]
      - [skills/state-management/scripts/state_selector.py]

    each defining a zero-argument function that returns a dict display of
    list displays of string literals, and a guarded entry point

      [if __name__ == "__main__": print(json.dumps(f(), indent=2))].

    The development embeds the fragment of the Python run time these
    scripts exercise: a store of mutable objects with allocation, dict and
    list displays, [json.dumps] with [indent], [json.loads], [print], and
    the run of a script as a process with an exit code. *)

From Stdlib Require Import String Ascii List Arith ZArith Bool Lia.
Import ListNotations.
Local Open Scope string_scope.

Set Warnings "-register-all".

(** ** Characters and text *)

Definition dquote : ascii := ascii_of_nat 34.
Definition backslash : ascii := ascii_of_nat 92.
Definition newline : ascii := ascii_of_nat 10.

Definition str1 (c : ascii) : string := String c EmptyString.

(** [sep.join(parts)] *)
Fixpoint join (sep : string) (parts : list string) : string :=
  match parts with
  | [] => EmptyString
  | [x] => x
  | x :: rest => x ++ sep ++ join sep rest
  end.

(** [s * n] for a text [s] *)
Fixpoint repeat_str (s : string) (n : nat) : string :=
  match n with
  | O => EmptyString
  | S k => s ++ repeat_str s k
  end.

(** ** The fragment of the Python run time *)

Module Py.

(** Values: immutable ones are carried as they are, lists and dicts are
    references into the store. *)
Inductive pyval : Type :=
| VNone
| VBool (b : bool)
| VStr (s : string)
| VRef (r : nat).

(** Store objects.  A dict keeps its items in insertion order; the keys
    of every dict display of the scripts are string literals, so keys are
    strings.  [OOpaque] stands for an object of a type [json] does not
    know (a set, bytes, an instance of a class). *)
Inductive obj : Type :=
| OList (elems : list pyval)
| ODict (items : list (string * pyval))
| OOpaque.

Inductive exn : Type :=
| TypeError
| ValueError
| RecursionError
| SystemError.

(** A process: what it was started with, its store and what it has
    written to standard output so far. *)
Record Process : Type := mkProcess {
  argv : list string;
  environ : list (string * string);
  heap : list obj;
  stdout : string
}.

(** Computations: they read and change the process and return a value or
    raise. *)
Definition M (A : Type) : Type := Process -> (exn + A) * Process.

Definition ret {A} (a : A) : M A := fun p => (inr a, p).

Definition raise {A} (e : exn) : M A := fun p => (inl e, p).

Definition bind {A B} (m : M A) (k : A -> M B) : M B :=
  fun p =>
    match m p with
    | (inr a, p') => k a p'
    | (inl e, p') => (inl e, p')
    end.

Declare Scope py_scope.
Delimit Scope py_scope with py.
Notation "x <- m ;; k" := (bind m (fun x => k))
  (at level 61, m at next level, right associativity) : py_scope.
Notation "m ;;; k" := (bind m (fun _ => k))
  (at level 61, right associativity) : py_scope.
Local Open Scope py_scope.

(** A new object gets the next free place of the store. *)
Definition alloc (o : obj) : M nat :=
  fun p =>
    (inr (length (heap p)),
     mkProcess (argv p) (environ p) (heap p ++ [o]) (stdout p)).

(** Evaluate the expressions from left to right. *)
Fixpoint sequence {A} (es : list (M A)) : M (list A) :=
  match es with
  | [] => ret []
  | e :: rest => x <- e ;; xs <- sequence rest ;; ret (x :: xs)
  end.

(** [d[k] = v]: an existing key keeps its place and gets the new value,
    a new key goes last. *)
Fixpoint dict_setitem {V} (k : string) (v : V)
         (items : list (string * V)) : list (string * V) :=
  match items with
  | [] => [(k, v)]
  | (k', v') :: rest =>
      if String.eqb k' k then (k', v) :: rest
      else (k', v') :: dict_setitem k v rest
  end.

(** A string literal. *)
Definition str (s : string) : M pyval := ret (VStr s).

(** A list display [[e1, ..., en]]: a fresh list. *)
Definition list_display (es : list (M pyval)) : M pyval :=
  xs <- sequence es ;;
  r <- alloc (OList xs) ;;
  ret (VRef r).

(** [dict(pairs)]: the pairs are set one after the other. *)
Definition dict_of_pairs {V} (pairs : list (string * V)) : list (string * V) :=
  fold_left (fun d kv => dict_setitem (fst kv) (snd kv) d) pairs [].

(** A dict display [{k1: e1, ..., kn: en}]: the values are evaluated from
    left to right, then a fresh dict receives the items in that order. *)
Definition dict_display (kvs : list (string * M pyval)) : M pyval :=
  items <- sequence (map (fun kv => v <- snd kv ;; ret (fst kv, v)) kvs) ;;
  r <- alloc (ODict (dict_of_pairs items)) ;;
  ret (VRef r).

(** [print(s)] for a text [s]: the text and a newline go to standard
    output. *)
Definition print (s : string) : M unit :=
  fun p =>
    (inr tt,
     mkProcess (argv p) (environ p) (heap p) (stdout p ++ s ++ str1 newline)).

End Py.

Import Py.
Local Open Scope py_scope.

(** ** The [json] module *)

Module Json.

(** A JSON document; also the structure of a Python value once the
    references are followed.  The members of an object are in insertion
    order. *)
Inductive jvalue : Type :=
| JNull
| JBool (b : bool)
| JStr (s : string)
| JArr (elems : list jvalue)
| JObj (members : list (string * jvalue)).

Fixpoint traverse {A B} (f : A -> exn + B) (xs : list A) : exn + list B :=
  match xs with
  | [] => inr []
  | x :: rest =>
      match f x with
      | inl e => inl e
      | inr y =>
          match traverse f rest with
          | inl e => inl e
          | inr ys => inr (y :: ys)
          end
      end
  end.

(** The encoder's walk over a value.  [markers] are the containers the
    walk is inside of: meeting one of them again is the encoder's
    "Circular reference detected".  An object of an unknown type is its
    "not JSON serializable". *)
Fixpoint reify (fuel : nat) (h : list obj) (markers : list nat) (v : pyval)
  : exn + jvalue :=
  match v with
  | VNone => inr JNull
  | VBool b => inr (JBool b)
  | VStr s => inr (JStr s)
  | VRef r =>
      match fuel with
      | O => inl RecursionError
      | S fuel' =>
          if existsb (Nat.eqb r) markers then inl ValueError
          else
            match nth_error h r with
            | None => inl SystemError
            | Some OOpaque => inl TypeError
            | Some (OList xs) =>
                match traverse (reify fuel' h (r :: markers)) xs with
                | inl e => inl e
                | inr js => inr (JArr js)
                end
            | Some (ODict items) =>
                match
                  traverse
                    (fun kv =>
                       match reify fuel' h (r :: markers) (snd kv) with
                       | inl e => inl e
                       | inr j => inr (fst kv, j)
                       end) items
                with
                | inl e => inl e
                | inr ms => inr (JObj ms)
                end
            end
      end
  end.

(** The structure of [v] in the store of [p]. *)
Definition snapshot (p : Process) (v : pyval) : exn + jvalue :=
  reify (S (length (heap p))) (heap p) [] v.

(** *** Encoding *)

Definition hex_digit (n : nat) : ascii :=
  if Nat.ltb n 10 then ascii_of_nat (48 + n) else ascii_of_nat (87 + n).

(** One character of a text under [ensure_ascii]: the printable ASCII
    characters stand for themselves except the quote and the backslash. *)
Definition escape_char (c : ascii) : string :=
  let n := nat_of_ascii c in
  if Ascii.eqb c dquote then String backslash (str1 dquote)
  else if Ascii.eqb c backslash then String backslash (str1 backslash)
  else if Nat.eqb n 10 then "\n"
  else if Nat.eqb n 13 then "\r"
  else if Nat.eqb n 9 then "\t"
  else if Nat.eqb n 8 then "\b"
  else if Nat.eqb n 12 then "\f"
  else if Nat.leb 32 n && Nat.leb n 126 then str1 c
  else "\u00" ++ str1 (hex_digit (n / 16)) ++ str1 (hex_digit (n mod 16)).

Fixpoint escape (s : string) : string :=
  match s with
  | EmptyString => EmptyString
  | String c rest => escape_char c ++ escape rest
  end.

Definition encode_basestring_ascii (s : string) : string :=
  str1 dquote ++ escape s ++ str1 dquote.

(** The encoder with [indent] set to the text [ind]: the item separator
    is a comma, the key separator a colon and a space, every item starts
    a line at its nesting level, and an empty container is written
    closed on the spot. *)
Fixpoint encode (ind : string) (level : nat) (j : jvalue) : string :=
  match j with
  | JNull => "null"
  | JBool true => "true"
  | JBool false => "false"
  | JStr s => encode_basestring_ascii s
  | JArr [] => "[]"
  | JArr xs =>
      let newline_indent := str1 newline ++ repeat_str ind (S level) in
      "[" ++ newline_indent
          ++ join ("," ++ newline_indent) (map (encode ind (S level)) xs)
          ++ str1 newline ++ repeat_str ind level ++ "]"
  | JObj [] => "{}"
  | JObj ms =>
      let newline_indent := str1 newline ++ repeat_str ind (S level) in
      "{" ++ newline_indent
          ++ join ("," ++ newline_indent)
               (map (fun kv => encode_basestring_ascii (fst kv) ++ ": "
                                 ++ encode ind (S level) (snd kv)) ms)
          ++ str1 newline ++ repeat_str ind level ++ "}"
  end.

(** [json.dumps(v, indent=n)] for a number [n] of spaces. *)
Definition dumps (v : pyval) (indent : nat) : M string :=
  fun p =>
    match snapshot p v with
    | inl e => raise e p
    | inr j => ret (encode (repeat_str " " indent) 0 j) p
    end.

(** *** Decoding

    The decoder for the documents the encoder above writes: objects,
    arrays, texts and the three constants.  Number literals are outside
    the fragment (no script writes one) and are refused, as are escapes
    of characters beyond one byte. *)

Definition is_ws (c : ascii) : bool :=
  let n := nat_of_ascii c in
  Nat.eqb n 32 || Nat.eqb n 9 || Nat.eqb n 10 || Nat.eqb n 13.

Fixpoint skip_ws (s : string) : string :=
  match s with
  | String c rest => if is_ws c then skip_ws rest else s
  | EmptyString => s
  end.

Definition hex_val (c : ascii) : option nat :=
  let n := nat_of_ascii c in
  if Nat.leb 48 n && Nat.leb n 57 then Some (n - 48)
  else if Nat.leb 97 n && Nat.leb n 102 then Some (n - 87)
  else if Nat.leb 65 n && Nat.leb n 70 then Some (n - 55)
  else None.

Definition hex4 (a b c d : ascii) : option nat :=
  match hex_val a, hex_val b, hex_val c, hex_val d with
  | Some x, Some y, Some z, Some w => Some (((x * 16 + y) * 16 + z) * 16 + w)
  | _, _, _, _ => None
  end.

(** The character a one-letter escape stands for. *)
Definition unescape (e : ascii) : option ascii :=
  let n := nat_of_ascii e in
  if Ascii.eqb e dquote then Some dquote
  else if Ascii.eqb e backslash then Some backslash
  else if Nat.eqb n 47 then Some e
  else if Nat.eqb n 98 then Some (ascii_of_nat 8)
  else if Nat.eqb n 102 then Some (ascii_of_nat 12)
  else if Nat.eqb n 110 then Some (ascii_of_nat 10)
  else if Nat.eqb n 114 then Some (ascii_of_nat 13)
  else if Nat.eqb n 116 then Some (ascii_of_nat 9)
  else None.

Definition cons_char (c : ascii) (r : option (string * string))
  : option (string * string) :=
  match r with
  | Some (s, rest) => Some (String c s, rest)
  | None => None
  end.

(** The text up to the closing quote, and what follows the quote.  A raw
    control character is refused (the decoder is strict). *)
Fixpoint scanstring (s : string) : option (string * string) :=
  match s with
  | EmptyString => None
  | String c rest =>
      if Ascii.eqb c dquote then Some (EmptyString, rest)
      else if Ascii.eqb c backslash then
        match rest with
        | EmptyString => None
        | String e rest' =>
            match unescape e with
            | Some ch => cons_char ch (scanstring rest')
            | None =>
                if Nat.eqb (nat_of_ascii e) 117 then
                  match rest' with
                  | String a (String b (String x (String y rest''))) =>
                      match hex4 a b x y with
                      | Some n =>
                          if Nat.ltb n 256
                          then cons_char (ascii_of_nat n) (scanstring rest'')
                          else None
                      | None => None
                      end
                  | _ => None
                  end
                else None
            end
        end
      else if Nat.ltb (nat_of_ascii c) 32 then None
      else cons_char c (scanstring rest)
  end.

Fixpoint strip_prefix (pre s : string) : option string :=
  match pre with
  | EmptyString => Some s
  | String a pre' =>
      match s with
      | String b s' => if Ascii.eqb a b then strip_prefix pre' s' else None
      | EmptyString => None
      end
  end.

(** One value at the head of [s], and the rest of [s].  [members] reads
    an object from its first key on, [elements] an array from its first
    element on; both collect what they read in [acc]. *)
Fixpoint scan_once (fuel : nat) (s : string) : option (jvalue * string) :=
  match fuel with
  | O => None
  | S fuel' =>
      match s with
      | EmptyString => None
      | String c rest =>
          if Ascii.eqb c dquote then
            match scanstring rest with
            | Some (t, rest') => Some (JStr t, rest')
            | None => None
            end
          else if Ascii.eqb c "{" then
            match skip_ws rest with
            | EmptyString => None
            | String c1 r1 =>
                if Ascii.eqb c1 "}" then Some (JObj [], r1)
                else members fuel' (String c1 r1) []
            end
          else if Ascii.eqb c "[" then
            match skip_ws rest with
            | EmptyString => None
            | String c1 r1 =>
                if Ascii.eqb c1 "]" then Some (JArr [], r1)
                else elements fuel' (String c1 r1) []
            end
          else
            match strip_prefix "null" s with
            | Some r => Some (JNull, r)
            | None =>
            match strip_prefix "true" s with
            | Some r => Some (JBool true, r)
            | None =>
            match strip_prefix "false" s with
            | Some r => Some (JBool false, r)
            | None => None
            end end end
      end
  end

with members (fuel : nat) (s : string) (acc : list (string * jvalue))
  : option (jvalue * string) :=
  match fuel with
  | O => None
  | S fuel' =>
      match s with
      | EmptyString => None
      | String c rest =>
          if Ascii.eqb c dquote then
            match scanstring rest with
            | None => None
            | Some (k, r1) =>
                match skip_ws r1 with
                | EmptyString => None
                | String c2 r2 =>
                    if Ascii.eqb c2 ":" then
                      match scan_once fuel' (skip_ws r2) with
                      | None => None
                      | Some (v, r3) =>
                          match skip_ws r3 with
                          | EmptyString => None
                          | String c4 r4 =>
                              if Ascii.eqb c4 "}" then
                                Some (JObj (dict_of_pairs (acc ++ [(k, v)])), r4)
                              else if Ascii.eqb c4 "," then
                                members fuel' (skip_ws r4) (acc ++ [(k, v)])
                              else None
                          end
                      end
                    else None
                end
            end
          else None
      end
  end

with elements (fuel : nat) (s : string) (acc : list jvalue)
  : option (jvalue * string) :=
  match fuel with
  | O => None
  | S fuel' =>
      match scan_once fuel' s with
      | None => None
      | Some (v, r1) =>
          match skip_ws r1 with
          | EmptyString => None
          | String c2 r2 =>
              if Ascii.eqb c2 "]" then Some (JArr (acc ++ [v]), r2)
              else if Ascii.eqb c2 "," then
                elements fuel' (skip_ws r2) (acc ++ [v])
              else None
          end
      end
  end.

(** [json.loads(s)]: one value, white space around it allowed, nothing
    else.  [None] is the decoder's error.  Every call of the scanner on a
    value, a member or an element takes at least one character off the
    text, so the length of the text bounds the depth of the calls. *)
Definition loads (s : string) : option jvalue :=
  match scan_once (S (String.length s)) (skip_ws s) with
  | None => None
  | Some (v, rest) =>
      match skip_ws rest with
      | EmptyString => Some v
      | String _ _ => None
      end
  end.

End Json.

Import Json.

(** ** The three scripts *)

(** [skills/database-storage/scripts/storage_selector.py] *)
Module storage_selector.

Definition select : M pyval :=
  dict_display
    [ ("local", list_display [str "shared_prefs"; str "hive"; str "sqflite"]);
      ("cloud", list_display [str "firestore"; str "supabase"]) ].

(** The statements of the module from the guard on, run under the name
    [__name__].  The [import] and the [def] before the guard bind two names
    of the module and write nothing; the binding is not modelled, the
    function is [select] above. *)
Definition body (__name__ : string) : M unit :=
  if String.eqb __name__ "__main__"
  then t <- select ;; s <- dumps t 2 ;; print s
  else ret tt.

End storage_selector.

(** [skills/performance/scripts/perf_analyzer.py] *)
Module perf_analyzer.

Definition analyze : M pyval :=
  dict_display
    [ ("metrics",
       list_display [str "fps"; str "memory"; str "startup"; str "size"]);
      ("tools", list_display [str "devtools"; str "firebase_perf"]) ].

(** The statements of the module from the guard on, as in
    [storage_selector]. *)
Definition body (__name__ : string) : M unit :=
  if String.eqb __name__ "__main__"
  then t <- analyze ;; s <- dumps t 2 ;; print s
  else ret tt.

End perf_analyzer.

(** [skills/state-management/scripts/state_selector.py] *)
Module state_selector.

Definition select : M pyval :=
  dict_display
    [ ("simple", list_display [str "setState"; str "ValueNotifier"]);
      ("medium", list_display [str "Provider"; str "Riverpod"]);
      ("complex", list_display [str "BLoC"; str "Redux"]) ].

(** The statements of the module from the guard on, as in
    [storage_selector]. *)
Definition body (__name__ : string) : M unit :=
  if String.eqb __name__ "__main__"
  then t <- select ;; s <- dumps t 2 ;; print s
  else ret tt.

End state_selector.

(** The units, to speak of all three at once. *)
Inductive unit_id : Type := Storage | Performance | StateManagement.

Definition selector (u : unit_id) : M pyval :=
  match u with
  | Storage => storage_selector.select
  | Performance => perf_analyzer.analyze
  | StateManagement => state_selector.select
  end.

Definition script (u : unit_id) : string -> M unit :=
  match u with
  | Storage => storage_selector.body
  | Performance => perf_analyzer.body
  | StateManagement => state_selector.body
  end.

(** ** Running a script as a program *)

Record Outcome : Type := mkOutcome {
  exit_code : Z;
  output : string
}.

(** [python3 script.py]: the module runs under the name [__main__]; the
    interpreter exits with 0 when the statements complete and with 1 on an
    exception nothing caught.  Writing to standard output is taken to
    succeed. *)
Definition run_script (body : string -> M unit) (p : Process) : Outcome :=
  match body "__main__" p with
  | (inr _, p') => mkOutcome 0 (stdout p')
  | (inl _, p') => mkOutcome 1 (stdout p')
  end.

(** A process that has written nothing yet. *)
Definition fresh_start (p : Process) : Prop := stdout p = EmptyString.

(** What standard output is connected to: a terminal, a pipe or a file that
    takes what is written to it, or a device that refuses every write, as
    [/dev/full] does. *)
Inductive sink : Type := Accepts | Refuses.

(** [python3 script.py] with standard output connected to [d].  The stream
    holds what the statements print (the documents of the scripts are far
    smaller than its buffer), and the interpreter writes it out when it
    exits.  When the device refuses that write, nothing is delivered and
    the exit status is 120, whether the statements completed or not.  When
    the device accepts, or there is nothing to write out, the status is
    that of the statements: 0 when they complete, 1 on an exception
    nothing caught. *)
Definition run_script_on (d : sink) (body : string -> M unit) (p : Process)
  : Outcome :=
  match body "__main__" p with
  | (r, p') =>
      match d, stdout p' with
      | Refuses, String _ _ => mkOutcome 120 EmptyString
      | _, _ =>
          mkOutcome (match r with inr _ => 0 | inl _ => 1 end) (stdout p')
      end
  end.

(** ** Recommendation tables *)

Definition table : Type := list (string * list string).

Fixpoint all_some {A} (xs : list (option A)) : option (list A) :=
  match xs with
  | [] => Some []
  | None :: _ => None
  | Some x :: rest =>
      match all_some rest with
      | Some ys => Some (x :: ys)
      | None => None
      end
  end.

Definition as_text (j : jvalue) : option string :=
  match j with
  | JStr s => Some s
  | _ => None
  end.

Definition as_options (j : jvalue) : option (list string) :=
  match j with
  | JArr xs => all_some (map as_text xs)
  | _ => None
  end.

(** A value is a table when it is a mapping from texts to sequences of
    texts. *)
Definition as_table (j : jvalue) : option table :=
  match j with
  | JObj ms =>
      all_some (map (fun kv =>
                       match as_options (snd kv) with
                       | Some xs => Some (fst kv, xs)
                       | None => None
                       end) ms)
  | _ => None
  end.

Definition table_json (t : table) : jvalue :=
  JObj (map (fun kv => (fst kv, JArr (map JStr (snd kv)))) t).

(** The structure of what a call of [f] in the process [p] returns, read
    in the store the call leaves; [None] when the call raises. *)
Definition returned (f : M pyval) (p : Process) : option jvalue :=
  match f p with
  | (inr v, p') =>
      match snapshot p' v with
      | inr j => Some j
      | inl _ => None
      end
  | (inl _, _) => None
  end.

(** The same, read as a table. *)
Definition returned_table (f : M pyval) (p : Process) : option table :=
  match returned f p with
  | Some j => as_table j
  | None => None
  end.

(** ** Dict displays of list displays of string literals

    The three selectors have one shape; what a display of that shape
    allocates and returns is established once, for every table and every
    store. *)

Definition table_display (t : table) : M pyval :=
  dict_display (map (fun kv => (fst kv, list_display (map str (snd kv)))) t).

Definition with_heap (p : Process) (h : list obj) : Process :=
  mkProcess (argv p) (environ p) h (stdout p).

(** The lists a display of [t] allocates, and the items of its dict when
    the first list is allocated at [n]. *)
Definition store_of (t : table) : list obj :=
  map (fun kv => OList (map VStr (snd kv))) t.

Definition items_of (n : nat) (t : table) : list (string * pyval) :=
  combine (map fst t) (map VRef (seq n (length t))).

(** The process after a display of [t]. *)
Definition after_display (t : table) (p : Process) : Process :=
  with_heap p (heap p ++ store_of t
                 ++ [ODict (dict_of_pairs (items_of (length (heap p)) t))]).

(** The rows of each selector's dict display, as the source writes them. *)
Definition display_rows (u : unit_id) : table :=
  match u with
  | Storage =>
      [ ("local", ["shared_prefs"; "hive"; "sqflite"]);
        ("cloud", ["firestore"; "supabase"]) ]
  | Performance =>
      [ ("metrics", ["fps"; "memory"; "startup"; "size"]);
        ("tools", ["devtools"; "firebase_perf"]) ]
  | StateManagement =>
      [ ("simple", ["setState"; "ValueNotifier"]);
        ("medium", ["Provider"; "Riverpod"]);
        ("complex", ["BLoC"; "Redux"]) ]
  end.

(** Items that agree on their keys and are related on their values. *)
Definition items_rel {V W} (R : V -> W -> Prop)
           (a : string * V) (b : string * W) : Prop :=
  fst a = fst b /\ R (snd a) (snd b).

(** A list of texts without repetition, decided. *)
Fixpoint distinct (l : list string) : bool :=
  match l with
  | [] => true
  | x :: rest => negb (existsb (String.eqb x) rest) && distinct rest
  end.

(** A text of ASCII characters only: its bytes are its characters in every
    encoding that extends ASCII. *)
Fixpoint is_ascii (s : string) : bool :=
  match s with
  | EmptyString => true
  | String c rest => Nat.ltb (nat_of_ascii c) 128 && is_ascii rest
  end.

(** ** The layout of section 6 of the specification

    The example of section 6, and the layout it shows for a table whose
    rows are not empty and whose labels need no escape: the object opens
    and closes on lines of their own, a key and the opening of its sequence
    share a line two spaces in, each option has a line four spaces in, and
    commas end every item but the last. *)

Definition quoted (s : string) : string := str1 dquote ++ s ++ str1 dquote.

Definition unlines (ls : list string) : string := join (str1 newline) ls.

Definition section6_example : string :=
  unlines
    [ "{";
      "  " ++ quoted "local" ++ ": [";
      "    " ++ quoted "shared_prefs" ++ ",";
      "    " ++ quoted "hive" ++ ",";
      "    " ++ quoted "sqflite";
      "  ],";
      "  " ++ quoted "cloud" ++ ": [";
      "    " ++ quoted "firestore" ++ ",";
      "    " ++ quoted "supabase";
      "  ]";
      "}" ].

Definition pretty_row (kv : string * list string) : string :=
  "  " ++ quoted (fst kv) ++ ": [" ++ str1 newline
       ++ join ("," ++ str1 newline) (map (fun x => "    " ++ quoted x) (snd kv))
       ++ str1 newline ++ "  ]".

Definition pretty_table (t : table) : string :=
  "{" ++ str1 newline
      ++ join ("," ++ str1 newline) (map pretty_row t)
      ++ str1 newline ++ "}".

(** A process as the shell starts it for a script. *)
Definition started (args : list string) (env : list (string * string))
  : Process :=
  mkProcess args env [] EmptyString.

(** ** Documents the decoder is to read back *)

(** A text of white space only. *)
Fixpoint blank (s : string) : bool :=
  match s with
  | EmptyString => true
  | String c rest => is_ws c && blank rest
  end.

(** No object of the document writes a key twice, as it is for every
    structure read off dicts. *)
Fixpoint unique_keys (j : jvalue) : bool :=
  match j with
  | JArr xs => forallb unique_keys xs
  | JObj ms => distinct (map fst ms) && forallb (fun kv => unique_keys (snd kv)) ms
  | _ => true
  end.

(** How deep the containers of a document are nested. *)
Fixpoint depth (j : jvalue) : nat :=
  match j with
  | JArr xs => S (fold_right (fun x d => Nat.max (depth x) d) O xs)
  | JObj ms => S (fold_right (fun kv d => Nat.max (depth (snd kv)) d) O ms)
  | _ => O
  end.

(** A nesting far inside what the interpreter's recursion limit (1000 by
    default) lets the encoder and the decoder descend; deeper documents
    make them raise [RecursionError]. *)
Definition nesting_bound : nat := 100.

(** The two texts the encoder puts between items: the line break with the
    indentation of a level, and a member of an object. *)
Definition newline_indent (ind : string) (lvl : nat) : string :=
  str1 newline ++ repeat_str ind lvl.

Definition member_text (ind : string) (lvl : nat) (kv : string * jvalue) : string :=
  encode_basestring_ascii (fst kv) ++ ": " ++ encode ind lvl (snd kv).

(** The scanner reads the text of [j] back, whatever follows it, given fuel
    for the length of that text. *)
Definition scans (ind : string) (j : jvalue) : Prop :=
  forall lvl tl fuel,
    unique_keys j = true ->
    (String.length (encode ind lvl j) <= fuel)%nat ->
    scan_once fuel (encode ind lvl j ++ tl) = Some (j, tl).

(** * Lemmas *)

Local Open Scope nat_scope.
Local Open Scope list_scope.

Section Displays.

Lemma bind_ok {A B} {m : M A} {k : A -> M B} {p a p'} :
  m p = (inr a, p') -> bind m k p = k a p'.
Proof. intros H. unfold bind. now rewrite H. Qed.

Lemma with_heap_same p : with_heap p (heap p) = p.
Proof. destruct p; reflexivity. Qed.

Lemma sequence_str xs p : sequence (map str xs) p = (inr (map VStr xs), p).
Proof.
  induction xs as [|x xs IH]; simpl; [reflexivity|].
  rewrite (bind_ok (a := VStr x) (p' := p)) by reflexivity.
  now rewrite (bind_ok IH).
Qed.

Lemma list_display_str xs p :
  list_display (map str xs) p
  = (inr (VRef (length (heap p))),
     with_heap p (heap p ++ [OList (map VStr xs)])).
Proof.
  unfold list_display. now rewrite (bind_ok (sequence_str xs p)).
Qed.

Lemma sequence_rows t : forall p,
  sequence (map (fun kv => v <- snd kv ;; ret (fst kv, v))
                (map (fun kv => (fst kv, list_display (map str (snd kv)))) t)) p
  = (inr (items_of (length (heap p)) t), with_heap p (heap p ++ store_of t)).
Proof.
  induction t as [|[k xs] t IH]; intros p; simpl.
  - unfold ret. now rewrite app_nil_r, with_heap_same.
  - rewrite (bind_ok (a := (k, VRef (length (heap p))))
               (p' := with_heap p (heap p ++ [OList (map VStr xs)])))
      by now rewrite (bind_ok (list_display_str xs p)).
    rewrite (bind_ok (IH _)).
    unfold ret, items_of, with_heap. simpl.
    rewrite length_app, Nat.add_1_r, <- app_assoc. reflexivity.
Qed.

Lemma table_display_run t p :
  table_display t p
  = (inr (VRef (length (heap p) + length t)),
     with_heap p (heap p ++ store_of t
                    ++ [ODict (dict_of_pairs (items_of (length (heap p)) t))])).
Proof.
  unfold table_display, dict_display.
  rewrite (bind_ok (sequence_rows t p)).
  unfold bind, alloc, ret, with_heap, store_of. simpl.
  now rewrite length_app, length_map, <- app_assoc.
Qed.

End Displays.

(** ** Reading a displayed table back *)

Section ReadBack.

Lemma traverse_Forall2 {A B} (f : A -> exn + B) xs ys :
  Forall2 (fun a b => f a = inr b) xs ys -> traverse f xs = inr ys.
Proof.
  induction 1 as [|a b xs ys Hab _ IH]; simpl; [reflexivity|].
  now rewrite Hab, IH.
Qed.

Lemma reify_strings fuel h mk xs :
  traverse (reify fuel h mk) (map VStr xs) = inr (map JStr xs).
Proof.
  apply traverse_Forall2.
  induction xs; simpl; constructor; auto.
  destruct fuel; reflexivity.
Qed.

Lemma dict_setitem_rel {V W} (R : V -> W -> Prop) k v w l l' :
  Forall2 (items_rel R) l l' -> R v w ->
  Forall2 (items_rel R) (dict_setitem k v l) (dict_setitem k w l').
Proof.
  intros Hl Hvw.
  induction Hl as [|[k1 v1] [k2 w2] l l' [Hk Hr] Hl IH]; simpl in *.
  - constructor; [split; auto | constructor].
  - subst k2. destruct (String.eqb k1 k); constructor; auto; split; auto.
Qed.

Lemma dict_of_pairs_rel {V W} (R : V -> W -> Prop) l l' :
  Forall2 (items_rel R) l l' ->
  Forall2 (items_rel R) (dict_of_pairs l) (dict_of_pairs l').
Proof.
  unfold dict_of_pairs.
  assert (G : forall acc acc',
             Forall2 (items_rel R) acc acc' ->
             Forall2 (items_rel R) l l' ->
             Forall2 (items_rel R)
               (fold_left (fun d kv => dict_setitem (fst kv) (snd kv) d) l acc)
               (fold_left (fun d kv => dict_setitem (fst kv) (snd kv) d) l' acc')).
  { intros acc acc' Hacc Hl. revert acc acc' Hacc.
    induction Hl as [|a b l l' [Hk Hr] _ IH]; intros acc acc' Hacc; simpl; auto.
    apply IH. rewrite Hk. now apply dict_setitem_rel. }
  intros Hl. apply G; [constructor | exact Hl].
Qed.

Lemma not_marked r mk : ~ In r mk -> existsb (Nat.eqb r) mk = false.
Proof.
  intros H. destruct (existsb (Nat.eqb r) mk) eqn:E; [|reflexivity].
  apply existsb_exists in E. destruct E as [x [Hx Hrx]].
  apply Nat.eqb_eq in Hrx. subst x. contradiction.
Qed.

(** The list of one row of a displayed table. *)
Lemma reify_row h0 (t1 : table) k xs (t2 : table) rest fuel mk :
  ~ In (length h0 + length t1) mk ->
  reify (S fuel) (h0 ++ store_of (t1 ++ (k, xs) :: t2) ++ rest) mk
        (VRef (length h0 + length t1))
  = inr (JArr (map JStr xs)).
Proof.
  intros Hmk. cbn [reify]. rewrite (not_marked _ _ Hmk).
  unfold store_of. rewrite map_app, <- app_assoc, app_assoc. cbn [map snd].
  rewrite nth_error_app2 by (rewrite length_app, length_map; lia).
  rewrite length_app, length_map, Nat.sub_diag. cbn [nth_error app].
  now rewrite reify_strings.
Qed.

(** The rows of a displayed table [t1 ++ t2], read from the row that
    starts [t2] on: each item of the dict refers to the list of its
    row. *)
Lemma reify_rows h0 rest fuel : forall (t2 t1 : table),
  Forall2
    (items_rel (fun v j =>
       reify (S fuel) (h0 ++ store_of (t1 ++ t2) ++ rest)
             [length h0 + length (t1 ++ t2)] v = inr j))
    (items_of (length h0 + length t1) t2)
    (map (fun kv => (fst kv, JArr (map JStr (snd kv)))) t2).
Proof.
  induction t2 as [|[k xs] t2 IH]; intros t1; [constructor|].
  assert (Hitems :
            items_of (length h0 + length t1) ((k, xs) :: t2)
            = (k, VRef (length h0 + length t1))
                :: items_of (length h0 + length (t1 ++ [(k, xs)])) t2).
  { unfold items_of. cbn [map seq length combine fst].
    rewrite length_app. cbn [length]. now rewrite Nat.add_assoc, Nat.add_1_r. }
  rewrite Hitems. cbn [map]. constructor.
  - split; [reflexivity|]. cbn [fst snd].
    apply reify_row. rewrite length_app. cbn [In length]. lia.
  - specialize (IH (t1 ++ [(k, xs)])).
    rewrite <- app_assoc in IH. exact IH.
Qed.

(** A displayed table is read back as it was written, whatever the store
    held before and whatever is allocated after. *)
Lemma reify_table h0 (t : table) h1 fuel :
  reify (S (S fuel))
        (h0 ++ store_of t
            ++ ODict (dict_of_pairs (items_of (length h0) t)) :: h1)
        [] (VRef (length h0 + length t))
  = inr (JObj (dict_of_pairs
                 (map (fun kv => (fst kv, JArr (map JStr (snd kv)))) t))).
Proof.
  cbn [reify existsb].
  rewrite app_assoc, nth_error_app2
    by (unfold store_of; rewrite length_app, length_map; lia).
  unfold store_of at 1. rewrite length_app, length_map, Nat.sub_diag.
  cbn [nth_error]. rewrite <- app_assoc.
  erewrite traverse_Forall2; [reflexivity|].
  pose proof (reify_rows h0
                (ODict (dict_of_pairs (items_of (length h0) t)) :: h1)
                fuel t []) as H.
  cbn [app length] in H. rewrite Nat.add_0_r in H.
  apply dict_of_pairs_rel in H.
  eapply Forall2_impl; [|exact H].
  intros [k v] [k' j] [Hk Hr]. cbn [fst snd] in *. subst k'.
  cbn [reify existsb] in Hr. now rewrite Hr.
Qed.

End ReadBack.

(** ** What a display returns and what the entry point prints *)

Section Calls.

Lemma Forall2_items_map {V W} (g : V -> W) (l : list (string * V)) l' :
  Forall2 (items_rel (fun v w => w = g v)) l l' ->
  l' = map (fun kv => (fst kv, g (snd kv))) l.
Proof.
  induction 1 as [|[k v] [k' w] l l' [Hk Hw] _ IH]; [reflexivity|].
  cbn [fst snd map] in *. now subst.
Qed.

Lemma dict_of_pairs_map {V W} (g : V -> W) (l : list (string * V)) :
  dict_of_pairs (map (fun kv => (fst kv, g (snd kv))) l)
  = map (fun kv => (fst kv, g (snd kv))) (dict_of_pairs l).
Proof.
  apply Forall2_items_map, dict_of_pairs_rel.
  induction l as [|[k v] l IH]; constructor; [split; reflexivity | exact IH].
Qed.

Lemma all_some_map_Some {A} (xs : list A) : all_some (map Some xs) = Some xs.
Proof. induction xs as [|x xs IH]; simpl; [reflexivity | now rewrite IH]. Qed.

Lemma as_options_strings xs : as_options (JArr (map JStr xs)) = Some xs.
Proof.
  unfold as_options. rewrite map_map. apply all_some_map_Some.
Qed.

(** A table written as a document is read as that table. *)
Lemma as_table_json (t : table) : as_table (table_json t) = Some t.
Proof.
  unfold as_table, table_json. rewrite map_map. cbn [fst snd].
  induction t as [|[k xs] t IH]; [reflexivity|].
  cbn [map all_some fst snd]. now rewrite as_options_strings, IH.
Qed.

(** The displayed table reads the same after later allocations. *)
Lemma snapshot_extended (t : table) p h1 :
  snapshot (with_heap p (heap (after_display t p) ++ h1))
           (VRef (length (heap p) + length t))
  = inr (table_json (dict_of_pairs t)).
Proof.
  unfold snapshot, after_display, with_heap, table_json. cbn [heap].
  rewrite <- (dict_of_pairs_map (fun xs => JArr (map JStr xs))).
  rewrite <- !app_assoc. cbn [app].
  replace (length (heap p ++ store_of t
                     ++ ODict (dict_of_pairs (items_of (length (heap p)) t))
                     :: h1))
    with (S (length (heap p) + length t + length h1))
    by (unfold store_of; rewrite !length_app, length_map; cbn [length]; lia).
  apply reify_table.
Qed.

Lemma snapshot_display (t : table) p :
  snapshot (after_display t p) (VRef (length (heap p) + length t))
  = inr (table_json (dict_of_pairs t)).
Proof.
  pose proof (snapshot_extended t p []) as H.
  rewrite app_nil_r in H. exact H.
Qed.

Lemma returned_display (t : table) p :
  returned (table_display t) p = Some (table_json (dict_of_pairs t)).
Proof.
  unfold returned. rewrite table_display_run.
  fold (after_display t p). now rewrite snapshot_display.
Qed.

Lemma returned_table_display (t : table) p :
  returned_table (table_display t) p = Some (dict_of_pairs t).
Proof.
  unfold returned_table. rewrite returned_display. apply as_table_json.
Qed.

(** The statements of the entry point, for a call that returns. *)
Lemma entry_point_run (f : M pyval) p v p' j :
  f p = (inr v, p') ->
  snapshot p' v = inr j ->
  (t <- f ;; s <- dumps t 2 ;; print s) p
  = (inr tt,
     mkProcess (argv p') (environ p') (heap p')
               (stdout p' ++ encode "  " 0 j ++ str1 newline)).
Proof.
  intros Hf Hj. rewrite (bind_ok Hf).
  rewrite (bind_ok (a := encode "  " 0 j) (p' := p'))
    by (unfold dumps; now rewrite Hj).
  reflexivity.
Qed.

End Calls.

Section Units.

Lemma selector_display u : selector u = table_display (display_rows u).
Proof. destruct u; reflexivity. Qed.

Lemma script_main u :
  script u "__main__" = (t <- selector u ;; s <- dumps t 2 ;; print s).
Proof. destruct u; reflexivity. Qed.

Lemma script_imported u name p :
  String.eqb name "__main__" = false -> script u name p = (inr tt, p).
Proof.
  intros H.
  destruct u; cbn [script]; unfold storage_selector.body, perf_analyzer.body,
    state_selector.body; now rewrite H.
Qed.

(** The entry point of a unit: the statements complete, and the document
    of the unit's table and a newline are added to what the process had
    written. *)
Lemma script_main_run u p :
  script u "__main__" p
  = (inr tt,
     mkProcess (argv p) (environ p)
               (heap (after_display (display_rows u) p))
               (stdout p
                  ++ encode "  " 0 (table_json (dict_of_pairs (display_rows u)))
                  ++ str1 newline)%string).
Proof.
  rewrite script_main, selector_display.
  exact (entry_point_run _ _ _ _ _ (table_display_run (display_rows u) p)
                         (snapshot_display (display_rows u) p)).
Qed.

Lemma run_script_unit u p :
  run_script (script u) p
  = mkOutcome 0 (stdout p
                   ++ encode "  " 0 (table_json (dict_of_pairs (display_rows u)))
                   ++ str1 newline)%string.
Proof.
  unfold run_script. now rewrite script_main_run.
Qed.

(** With a standard output that accepts what is written, a run is the run
    of [run_script]. *)
Lemma run_script_on_accepts body p :
  run_script_on Accepts body p = run_script body p.
Proof.
  unfold run_script_on, run_script.
  destruct (body "__main__"%string p) as [[e|x] p']; reflexivity.
Qed.

Lemma returned_table_unit u p :
  returned_table (selector u) p = Some (dict_of_pairs (display_rows u)).
Proof. rewrite selector_display. apply returned_table_display. Qed.

End Units.

(** ** Labels that do not repeat *)

Section Labels.

Lemma NoDup_app_disjoint {A} (l1 l2 : list A) :
  NoDup (l1 ++ l2) -> forall a, In a l1 -> ~ In a l2.
Proof.
  induction l1 as [|x l1 IH]; intros Hnd a Ha Ha2; [contradiction|].
  cbn [app] in Hnd. apply NoDup_cons_iff in Hnd as [Hx Hnd].
  destruct Ha as [->|Ha].
  - apply Hx, in_or_app. now right.
  - exact (IH Hnd a Ha Ha2).
Qed.

(** When the labels of all rows taken together do not repeat, no row
    repeats a label and rows under different keys share none. *)
Lemma labels_apart (t : table) :
  NoDup (concat (map snd t)) ->
  Forall (fun kv => NoDup (snd kv)) t
  /\ forall k1 xs1 k2 xs2 x,
      In (k1, xs1) t -> In (k2, xs2) t -> k1 <> k2 ->
      In x xs1 -> ~ In x xs2.
Proof.
  induction t as [|[k xs] t IH]; cbn [map concat snd]; intros Hnd.
  - split; [constructor | intros; contradiction].
  - pose proof (NoDup_app_disjoint _ _ Hnd) as Hdis.
    destruct (IH (NoDup_app_remove_l _ _ Hnd)) as [Hrows Hapart].
    split.
    + constructor; [exact (NoDup_app_remove_r _ _ Hnd) | exact Hrows].
    + intros k1 xs1 k2 xs2 x [E1|I1] [E2|I2] Hk Hx1 Hx2.
      * congruence.
      * inversion E1; subst. apply (Hdis x Hx1).
        apply in_concat. exists xs2. split; [|exact Hx2].
        apply in_map_iff. now exists (k2, xs2).
      * inversion E2; subst. apply (Hdis x Hx2).
        apply in_concat. exists xs1. split; [|exact Hx1].
        apply in_map_iff. now exists (k1, xs1).
      * exact (Hapart k1 xs1 k2 xs2 x I1 I2 Hk Hx1 Hx2).
Qed.

Lemma distinct_NoDup l : distinct l = true -> NoDup l.
Proof.
  induction l as [|x l IH]; cbn [distinct]; intros H; [constructor|].
  apply andb_true_iff in H as [Hx Hl]. constructor; [|auto].
  intros Hin. apply negb_true_iff in Hx.
  assert (E : existsb (String.eqb x) l = true)
    by (apply existsb_exists; exists x; split; [exact Hin | apply String.eqb_refl]).
  congruence.
Qed.

End Labels.

(** * Properties of the specification *)

(** C1.  Whatever the process, a call of the storage unit's [select]
    returns the mapping with the keys [local] and [cloud], in that order,
    and their option sequences [shared_prefs, hive, sqflite] and
    [firestore, supabase], in that order. *)
Theorem storage_select_table (p : Process) :
  returned_table storage_selector.select p
  = Some [ ("local", ["shared_prefs"; "hive"; "sqflite"]);
           ("cloud", ["firestore"; "supabase"]) ].
Proof.
  exact (returned_table_unit Storage p).
Qed.

(** C2.  Whatever the process, a call of the performance unit's [analyze]
    returns the mapping with the keys [metrics] and [tools], in that
    order, and their option sequences [fps, memory, startup, size] and
    [devtools, firebase_perf], in that order. *)
Theorem perf_analyze_table (p : Process) :
  returned_table perf_analyzer.analyze p
  = Some [ ("metrics", ["fps"; "memory"; "startup"; "size"]);
           ("tools", ["devtools"; "firebase_perf"]) ].
Proof.
  exact (returned_table_unit Performance p).
Qed.

(** C3.  Whatever the process, a call of the state-management unit's
    [select] returns the mapping with the keys [simple], [medium] and
    [complex], in that order, and their option sequences
    [setState, ValueNotifier], [Provider, Riverpod] and [BLoC, Redux], in
    that order. *)
Theorem state_select_table (p : Process) :
  returned_table state_selector.select p
  = Some [ ("simple", ["setState"; "ValueNotifier"]);
           ("medium", ["Provider"; "Riverpod"]);
           ("complex", ["BLoC"; "Redux"]) ].
Proof.
  exact (returned_table_unit StateManagement p).
Qed.

(** C4.  For each unit run as a program from a process that has written
    nothing: the whole of standard output is one document and a final
    newline; the document is the selector's table in the two-space layout
    of section 6; it reads as a single JSON object whose keys come in the
    order of the table's keys; and for the storage unit it is the example
    of section 6. *)
Theorem standalone_output (u : unit_id) (p : Process) (H : fresh_start p) :
  exists t doc,
    returned_table (selector u) p = Some t
    /\ output (run_script (script u) p) = (doc ++ str1 newline)%string
    /\ doc = pretty_table t
    /\ (exists ms, loads doc = Some (JObj ms) /\ map fst ms = map fst t)
    /\ (u = Storage -> doc = section6_example).
Proof.
  exists (dict_of_pairs (display_rows u)).
  exists (encode "  " 0 (table_json (dict_of_pairs (display_rows u)))).
  rewrite returned_table_unit, run_script_unit, H.
  split; [reflexivity|]. split; [reflexivity|].
  split; [destruct u; vm_compute; reflexivity|].
  split.
  - exists (map (fun kv => (fst kv, JArr (map JStr (snd kv))))
                (dict_of_pairs (display_rows u))).
    destruct u; vm_compute; split; reflexivity.
  - intros ->. vm_compute. reflexivity.
Qed.

Lemma standalone_output_witness :
  fresh_start (started ["storage_selector.py"] [("HOME", "/root")])
  /\ exists t doc,
       returned_table (selector Storage)
                      (started ["storage_selector.py"] [("HOME", "/root")])
       = Some t
       /\ output (run_script (script Storage)
                    (started ["storage_selector.py"] [("HOME", "/root")]))
          = (doc ++ str1 newline)%string
       /\ doc = pretty_table t
       /\ (exists ms, loads doc = Some (JObj ms) /\ map fst ms = map fst t)
       /\ (Storage = Storage -> doc = section6_example).
Proof.
  split; [reflexivity|].
  apply (standalone_output Storage
           (started ["storage_selector.py"] [("HOME", "/root")])).
  reflexivity.
Defined.

(** C5.  For each unit run as a program from a process that has written
    nothing, parsing the text of standard output as JSON succeeds and gives
    the very structure a direct call of the unit's selector returns. *)
Theorem output_round_trip (u : unit_id) (p : Process) (H : fresh_start p) :
  exists j,
    returned (selector u) p = Some j
    /\ loads (output (run_script (script u) p)) = Some j.
Proof.
  exists (table_json (dict_of_pairs (display_rows u))).
  rewrite selector_display, returned_display, run_script_unit, H.
  split; [reflexivity|].
  destruct u; vm_compute; reflexivity.
Qed.

Lemma output_round_trip_witness :
  fresh_start (started ["state_selector.py"] [])
  /\ exists j,
       returned (selector StateManagement) (started ["state_selector.py"] [])
       = Some j
       /\ loads (output (run_script (script StateManagement)
                           (started ["state_selector.py"] [])))
          = Some j.
Proof.
  split; [reflexivity|].
  apply (output_round_trip StateManagement (started ["state_selector.py"] [])).
  reflexivity.
Defined.

(** C6.  Each unit is deterministic.  Two calls of its selector, one after
    the other in any process, both return, and the two results have the
    same structure; and two runs of the unit as a program, from any two
    processes that have written nothing, whatever their arguments,
    environment and store, end with the same exit code and the same text on
    standard output, a text of ASCII characters only, so that its bytes
    are the same as well. *)
Theorem unit_deterministic (u : unit_id) (p p1 p2 : Process)
        (H1 : fresh_start p1) (H2 : fresh_start p2) :
  (exists v1 v2 p' j,
      (a <- selector u ;; b <- selector u ;; ret (a, b)) p = (inr (v1, v2), p')
      /\ snapshot p' v1 = inr j
      /\ snapshot p' v2 = inr j)
  /\ run_script (script u) p1 = run_script (script u) p2
  /\ is_ascii (output (run_script (script u) p1)) = true.
Proof.
  split; [|split].
  - set (t := display_rows u).
    exists (VRef (length (heap p) + length t)).
    exists (VRef (length (heap (after_display t p)) + length t)).
    exists (after_display t (after_display t p)).
    exists (table_json (dict_of_pairs t)).
    rewrite selector_display. fold t.
    split; [|split].
    + rewrite (bind_ok (table_display_run t p)).
      fold (after_display t p).
      rewrite (bind_ok (table_display_run t (after_display t p))).
      reflexivity.
    + exact (snapshot_extended t p
               (store_of t
                  ++ [ODict (dict_of_pairs
                               (items_of (length (heap (after_display t p))) t))])).
    + apply snapshot_display.
  - rewrite !run_script_unit, H1, H2. reflexivity.
  - rewrite run_script_unit, H1. destruct u; vm_compute; reflexivity.
Qed.

Lemma unit_deterministic_witness :
  fresh_start (started ["perf_analyzer.py"] [])
  /\ fresh_start (mkProcess ["perf_analyzer.py"; "--fast"] [("LANG", "C")]
                            [OOpaque; OList [VRef 0]] EmptyString)
  /\ run_script (script Performance) (started ["perf_analyzer.py"] [])
      = run_script (script Performance)
                   (mkProcess ["perf_analyzer.py"; "--fast"] [("LANG", "C")]
                              [OOpaque; OList [VRef 0]] EmptyString).
Proof.
  split; [reflexivity|]. split; [reflexivity|].
  apply (unit_deterministic Performance (started [] [])
           (started ["perf_analyzer.py"] [])
           (mkProcess ["perf_analyzer.py"; "--fast"] [("LANG", "C")]
                      [OOpaque; OList [VRef 0]] EmptyString));
    reflexivity.
Defined.

(** C7.  In every table a selector returns, no key occurs twice, every
    value is a sequence with at least one entry, and no entry of any value
    is the empty text. *)
Theorem tables_well_formed (u : unit_id) (p : Process) (t : table)
        (H : returned_table (selector u) p = Some t) :
  NoDup (map fst t)
  /\ Forall (fun kv => snd kv <> []
                       /\ Forall (fun x => x <> EmptyString) (snd kv)) t.
Proof.
  rewrite returned_table_unit in H. injection H as <-.
  split.
  - apply distinct_NoDup. destruct u; vm_compute; reflexivity.
  - destruct u; vm_compute;
      repeat (constructor; try split; try discriminate).
Qed.

Lemma tables_well_formed_witness :
  returned_table (selector Storage) (started [] [])
  = Some [ ("local", ["shared_prefs"; "hive"; "sqflite"]);
           ("cloud", ["firestore"; "supabase"]) ]
  /\ NoDup (map fst [ ("local", ["shared_prefs"; "hive"; "sqflite"]);
                      ("cloud", ["firestore"; "supabase"]) ])
  /\ Forall (fun kv => snd kv <> []
                       /\ Forall (fun x => x <> EmptyString) (snd kv))
            [ ("local", ["shared_prefs"; "hive"; "sqflite"]);
              ("cloud", ["firestore"; "supabase"]) ].
Proof.
  split; [reflexivity|].
  apply (tables_well_formed Storage (started [] [])).
  reflexivity.
Defined.

(** C8.  Nothing fails as long as standard output takes what is written.
    In every process a call of a unit's selector returns a value, never an
    exception; the statements of the unit's module complete under every
    module name, run as a program or imported; and every run of the unit
    as a program whose standard output accepts what is written ends with
    exit code zero. *)
Theorem nothing_fails_when_written (u : unit_id) (d : sink) (p : Process)
        (H : d = Accepts) :
  (exists v p', selector u p = (inr v, p'))
  /\ (forall name, exists p', script u name p = (inr tt, p'))
  /\ exit_code (run_script_on d (script u) p) = 0%Z.
Proof.
  subst d. split; [|split].
  - rewrite selector_display, table_display_run. eauto.
  - intros name. destruct (String.eqb name "__main__") eqn:E.
    + apply String.eqb_eq in E. subst name.
      rewrite script_main_run. eauto.
    + rewrite (script_imported u name p E). eauto.
  - unfold run_script_on. now rewrite script_main_run.
Qed.

Lemma nothing_fails_when_written_witness :
  Accepts = Accepts
  /\ (exists v p', selector Storage (started ["storage_selector.py"] [])
                   = (inr v, p'))
  /\ (forall name,
         exists p', script Storage name (started ["storage_selector.py"] [])
                    = (inr tt, p'))
  /\ exit_code (run_script_on Accepts (script Storage)
                              (started ["storage_selector.py"] []))
     = 0%Z.
Proof.
  split; [reflexivity|].
  apply (nothing_fails_when_written Storage Accepts
           (started ["storage_selector.py"] [])).
  reflexivity.
Defined.

(** C8 as first stated, without the condition on standard output, fails:
    run with standard output connected to a device that refuses the
    write, the storage unit ends with exit code 120, not zero. *)
Lemma refused_write_exit_code :
  exit_code (run_script_on Refuses (script Storage)
                           (started ["storage_selector.py"] []))
  = 120%Z
  /\ exit_code (run_script_on Refuses (script Storage)
                              (started ["storage_selector.py"] []))
     <> 0%Z.
Proof.
  split; [vm_compute; reflexivity | vm_compute; discriminate].
Qed.

(** C9.  In every table a selector returns no option label occurs twice:
    the labels of all rows taken together do not repeat, so no value
    sequence has a duplicate entry and the value sequences of different
    keys have no entry in common. *)
Theorem labels_unique (u : unit_id) (p : Process) (t : table)
        (H : returned_table (selector u) p = Some t) :
  NoDup (concat (map snd t))
  /\ Forall (fun kv => NoDup (snd kv)) t
  /\ forall k1 xs1 k2 xs2 x,
      In (k1, xs1) t -> In (k2, xs2) t -> k1 <> k2 ->
      In x xs1 -> ~ In x xs2.
Proof.
  rewrite returned_table_unit in H. injection H as <-.
  assert (Hnd : NoDup (concat (map snd (dict_of_pairs (display_rows u)))))
    by (apply distinct_NoDup; destruct u; vm_compute; reflexivity).
  split; [exact Hnd | exact (labels_apart _ Hnd)].
Qed.

Lemma labels_unique_witness :
  returned_table (selector Performance) (started [] [])
  = Some [ ("metrics", ["fps"; "memory"; "startup"; "size"]);
           ("tools", ["devtools"; "firebase_perf"]) ]
  /\ NoDup (concat (map snd [ ("metrics", ["fps"; "memory"; "startup"; "size"]);
                           ("tools", ["devtools"; "firebase_perf"]) ]))
  /\ Forall (fun kv => NoDup (snd kv))
            [ ("metrics", ["fps"; "memory"; "startup"; "size"]);
              ("tools", ["devtools"; "firebase_perf"]) ]
  /\ forall k1 xs1 k2 xs2 x,
      In (k1, xs1) [ ("metrics", ["fps"; "memory"; "startup"; "size"]);
                     ("tools", ["devtools"; "firebase_perf"]) ] ->
      In (k2, xs2) [ ("metrics", ["fps"; "memory"; "startup"; "size"]);
                     ("tools", ["devtools"; "firebase_perf"]) ] ->
      k1 <> k2 -> In x xs1 -> ~ In x xs2.
Proof.
  split; [reflexivity|].
  apply (labels_unique Performance (started [] [])).
  reflexivity.
Defined.

(** C10.  In every table a selector returns every value sequence has at
    least two entries. *)
Theorem rows_offer_a_choice (u : unit_id) (p : Process) (t : table)
        (H : returned_table (selector u) p = Some t) :
  Forall (fun kv => 2 <= length (snd kv)) t.
Proof.
  rewrite returned_table_unit in H. injection H as <-.
  destruct u; vm_compute; repeat constructor.
Qed.

Lemma rows_offer_a_choice_witness :
  returned_table (selector StateManagement) (started [] [])
  = Some [ ("simple", ["setState"; "ValueNotifier"]);
           ("medium", ["Provider"; "Riverpod"]);
           ("complex", ["BLoC"; "Redux"]) ]
  /\ Forall (fun kv => 2 <= length (snd kv))
         [ ("simple", ["setState"; "ValueNotifier"]);
           ("medium", ["Provider"; "Riverpod"]);
           ("complex", ["BLoC"; "Redux"]) ].
Proof.
  split; [reflexivity|].
  apply (rows_offer_a_choice StateManagement (started [] [])).
  reflexivity.
Defined.

(** * The encoder, the decoder and the displays in general *)

(** ** Texts *)

Section Texts.

Lemma append_assoc (a b c : string) : ((a ++ b) ++ c = a ++ (b ++ c))%string.
Proof. induction a as [|x a IH]; simpl; [reflexivity | now rewrite IH]. Qed.

Lemma append_nil_r (a : string) : (a ++ EmptyString)%string = a.
Proof. induction a as [|x a IH]; simpl; [reflexivity | now rewrite IH]. Qed.

Lemma length_append (a b : string) :
  String.length (a ++ b) = String.length a + String.length b.
Proof. induction a as [|x a IH]; simpl; [reflexivity | now rewrite IH]. Qed.

Lemma skip_ws_blank (b s : string) :
  blank b = true -> skip_ws (b ++ s) = skip_ws s.
Proof.
  induction b as [|c b IH]; simpl; [reflexivity|].
  intros H. apply andb_true_iff in H as [Hc Hb]. rewrite Hc. auto.
Qed.

Lemma blank_append (a b : string) :
  blank a = true -> blank b = true -> blank (a ++ b) = true.
Proof.
  induction a as [|c a IH]; simpl; [auto|].
  intros H Hb. apply andb_true_iff in H as [Hc Ha]. rewrite Hc. auto.
Qed.

Lemma blank_repeat (s : string) n : blank s = true -> blank (repeat_str s n) = true.
Proof. intros H. induction n; simpl; [reflexivity | now apply blank_append]. Qed.

(** One escaped character is read back as that character. *)
Lemma scanstring_escape_char (c : ascii) (tl : string) :
  scanstring (escape_char c ++ tl) = cons_char c (scanstring tl).
Proof.
  destruct c as [[] [] [] [] [] [] [] []]; reflexivity.
Qed.

Lemma scanstring_escape (s rest : string) :
  scanstring (escape s ++ String dquote rest) = Some (s, rest).
Proof.
  induction s as [|c s IH]; [reflexivity|].
  cbn [escape]. rewrite append_assoc, scanstring_escape_char, IH. reflexivity.
Qed.

Lemma append_cons c (r tl : string) :
  (String c r ++ tl)%string = String c (r ++ tl).
Proof. reflexivity. Qed.

End Texts.

(** ** Induction on documents *)

Lemma jvalue_nested_ind (P : jvalue -> Prop) :
  P JNull ->
  (forall b, P (JBool b)) ->
  (forall s, P (JStr s)) ->
  (forall xs, Forall P xs -> P (JArr xs)) ->
  (forall ms, Forall (fun kv => P (snd kv)) ms -> P (JObj ms)) ->
  forall j, P j.
Proof.
  intros HN HB HS HA HO. fix IH 1. intros [| b | s | xs | ms].
  - exact HN.
  - apply HB.
  - apply HS.
  - apply HA.
    exact ((fix go (l : list jvalue) : Forall P l :=
              match l with
              | [] => Forall_nil P
              | x :: r => Forall_cons x (IH x) (go r)
              end) xs).
  - apply HO.
    exact ((fix go (l : list (string * jvalue))
              : Forall (fun kv => P (snd kv)) l :=
              match l with
              | [] => Forall_nil _
              | kv :: r => Forall_cons kv (IH (snd kv)) (go r)
              end) ms).
Qed.

(** ** Keys of dicts *)

Section Keys.

Lemma setitem_new {V} k (v : V) acc :
  ~ In k (map fst acc) -> dict_setitem k v acc = acc ++ [(k, v)].
Proof.
  induction acc as [|[k' v'] acc IH]; cbn [dict_setitem map fst In app];
    intros Hk; [reflexivity|].
  destruct (String.eqb_spec k' k) as [->|_]; [tauto|].
  rewrite IH by tauto. reflexivity.
Qed.

Lemma dict_of_pairs_distinct {V} (ms : list (string * V)) :
  NoDup (map fst ms) -> dict_of_pairs ms = ms.
Proof.
  unfold dict_of_pairs.
  assert (G : forall acc,
             NoDup (map fst (acc ++ ms)) ->
             fold_left (fun d kv => dict_setitem (fst kv) (snd kv) d) ms acc
             = acc ++ ms).
  { induction ms as [|[k v] ms IH]; intros acc Hnd; cbn [fold_left fst snd].
    - now rewrite app_nil_r.
    - rewrite setitem_new.
      + rewrite IH; rewrite <- app_assoc; [reflexivity | exact Hnd].
      + rewrite map_app in Hnd. cbn [map fst] in Hnd.
        apply NoDup_remove_2 in Hnd. intros Hin. apply Hnd, in_or_app. now left. }
  intros Hnd. exact (G [] Hnd).
Qed.

Lemma setitem_keys_old {V} k (v : V) acc :
  In k (map fst acc) -> map fst (dict_setitem k v acc) = map fst acc.
Proof.
  induction acc as [|[k' v'] acc IH]; cbn [dict_setitem map fst In];
    intros Hk; [contradiction|].
  destruct (String.eqb_spec k' k) as [->|Hne]; [reflexivity|].
  cbn [map fst]. rewrite IH; [reflexivity|]. destruct Hk; [contradiction | assumption].
Qed.

(** Setting an item keeps the keys distinct and adds at most the key set. *)
Lemma setitem_keys {V} k (v : V) acc :
  NoDup (map fst acc) ->
  NoDup (map fst (dict_setitem k v acc))
  /\ forall x, In x (map fst (dict_setitem k v acc)) <-> x = k \/ In x (map fst acc).
Proof.
  intros Hnd. destruct (in_dec string_dec k (map fst acc)) as [Hin|Hnin].
  - rewrite setitem_keys_old by exact Hin. split; [exact Hnd|].
    intros x. split; [auto | intros [->|H]; assumption].
  - rewrite setitem_new by exact Hnin. rewrite map_app. cbn [map fst]. split.
    + apply NoDup_app; [exact Hnd | repeat constructor; intros [] |].
      intros a Ha [<-|[]]. contradiction.
    + intros x. rewrite in_app_iff. cbn [In]. intuition.
Qed.

Lemma dict_of_pairs_keys {V} (l : list (string * V)) :
  NoDup (map fst (dict_of_pairs l))
  /\ forall x, In x (map fst (dict_of_pairs l)) <-> In x (map fst l).
Proof.
  unfold dict_of_pairs.
  assert (G : forall acc,
             NoDup (map fst acc) ->
             NoDup (map fst (fold_left
                               (fun d kv => dict_setitem (fst kv) (snd kv) d) l acc))
             /\ forall x,
                 In x (map fst (fold_left
                                  (fun d kv => dict_setitem (fst kv) (snd kv) d) l acc))
                 <-> In x (map fst acc) \/ In x (map fst l)).
  { induction l as [|[k v] l IH]; intros acc Hacc; cbn [fold_left map fst snd In].
    - split; [exact Hacc | intros x; tauto].
    - destruct (setitem_keys k v acc Hacc) as [Hnd Hin].
      destruct (IH _ Hnd) as [Hnd' Hin']. split; [exact Hnd'|].
      intros x. rewrite Hin', Hin. intuition. }
  destruct (G [] (NoDup_nil _)) as [Hnd Hin]. split; [exact Hnd|].
  intros x. rewrite Hin. cbn [map In]. tauto.
Qed.

(** A computation that returns went through both of its halves. *)
Lemma bind_inr {A B} (m : M A) (k : A -> M B) p b p' :
  bind m k p = (inr b, p') ->
  exists a p1, m p = (inr a, p1) /\ k a p1 = (inr b, p').
Proof.
  unfold bind. destruct (m p) as [[e|a] p1]; [discriminate | eauto].
Qed.

(** The values of a dict display are evaluated in order; the keys stay as
    written. *)
Lemma sequence_keys (kvs : list (string * M pyval)) : forall p items p',
  sequence (map (fun kv => v <- snd kv ;; ret (fst kv, v)) kvs) p = (inr items, p') ->
  map fst items = map fst kvs.
Proof.
  induction kvs as [|[k e] kvs IH]; intros p items p' H; cbn [map sequence fst snd] in *.
  - unfold ret in H. now inversion H.
  - apply bind_inr in H as (kv & p1 & Hkv & H).
    apply bind_inr in Hkv as (v & p0 & _ & Hkv).
    apply bind_inr in H as (its & p2 & Hits & H).
    unfold ret in Hkv, H. inversion Hkv; inversion H; subst. cbn [map fst].
    now rewrite (IH _ _ _ Hits).
Qed.

End Keys.

(** ** The scanner on the encoder's text *)

Section Scanner.

Variable ind : string.
Hypothesis ind_blank : blank ind = true.

Lemma nli_blank lvl : blank (newline_indent ind lvl) = true.
Proof. unfold newline_indent. simpl. now apply blank_repeat. Qed.

Lemma encode_head lvl j :
  exists c r, encode ind lvl j = String c r
              /\ is_ws c = false /\ Ascii.eqb c "]" = false.
Proof.
  destruct j as [|[]|s|[|x xs]|[|m ms]]; do 2 eexists;
    (split; [reflexivity | split; reflexivity]).
Qed.

Lemma skip_ws_encode lvl j tl :
  skip_ws (encode ind lvl j ++ tl) = (encode ind lvl j ++ tl)%string.
Proof.
  destruct (encode_head lvl j) as (c & r & -> & Hc & _).
  simpl. now rewrite Hc.
Qed.

Lemma encode_length_pos lvl j : 1 <= String.length (encode ind lvl j).
Proof.
  destruct (encode_head lvl j) as (c & r & -> & _). simpl. lia.
Qed.

(** The scanner, one step at a time. *)
Lemma scan_once_string f tl :
  scan_once (S f) (String dquote tl)
  = match scanstring tl with
    | Some (t, rest') => Some (JStr t, rest')
    | None => None
    end.
Proof. reflexivity. Qed.

Lemma scan_once_array f tl :
  scan_once (S f) (String "[" tl)
  = match skip_ws tl with
    | EmptyString => None
    | String c1 r1 =>
        if Ascii.eqb c1 "]" then Some (JArr [], r1)
        else elements f (String c1 r1) []
    end.
Proof. reflexivity. Qed.

Lemma scan_once_object f tl :
  scan_once (S f) (String "{" tl)
  = match skip_ws tl with
    | EmptyString => None
    | String c1 r1 =>
        if Ascii.eqb c1 "}" then Some (JObj [], r1)
        else members f (String c1 r1) []
    end.
Proof. reflexivity. Qed.

Lemma elements_step f s acc :
  elements (S f) s acc
  = match scan_once f s with
    | None => None
    | Some (v, r1) =>
        match skip_ws r1 with
        | EmptyString => None
        | String c2 r2 =>
            if Ascii.eqb c2 "]" then Some (JArr (acc ++ [v]), r2)
            else if Ascii.eqb c2 "," then elements f (skip_ws r2) (acc ++ [v])
            else None
        end
    end.
Proof. reflexivity. Qed.

Lemma members_step f tl acc :
  members (S f) (String dquote tl) acc
  = match scanstring tl with
    | None => None
    | Some (k, r1) =>
        match skip_ws r1 with
        | EmptyString => None
        | String c2 r2 =>
            if Ascii.eqb c2 ":" then
              match scan_once f (skip_ws r2) with
              | None => None
              | Some (v, r3) =>
                  match skip_ws r3 with
                  | EmptyString => None
                  | String c4 r4 =>
                      if Ascii.eqb c4 "}" then
                        Some (JObj (dict_of_pairs (acc ++ [(k, v)])), r4)
                      else if Ascii.eqb c4 "," then
                        members f (skip_ws r4) (acc ++ [(k, v)])
                      else None
                  end
              end
            else None
        end
    end.
Proof. reflexivity. Qed.

Lemma elements_more f s x tl acc :
  scan_once f s = Some (x, String "," tl) ->
  elements (S f) s acc = elements f (skip_ws tl) (acc ++ [x]).
Proof. intros H. rewrite elements_step, H. reflexivity. Qed.

Lemma elements_last f s x close tl acc :
  blank close = true ->
  scan_once f s = Some (x, close ++ String "]" tl)%string ->
  elements (S f) s acc = Some (JArr (acc ++ [x]), tl).
Proof.
  intros Hcl H. rewrite elements_step, H, skip_ws_blank by exact Hcl.
  reflexivity.
Qed.

Lemma members_more f k v s tl tl' acc :
  scanstring s = Some (k, String ":" (String " " tl)) ->
  scan_once f (skip_ws tl) = Some (v, String "," tl') ->
  members (S f) (String dquote s) acc
  = members f (skip_ws tl') (acc ++ [(k, v)]).
Proof.
  intros Hk Hv. rewrite members_step, Hk.
  change (skip_ws (String ":" (String " " tl))) with (String ":" (String " " tl)).
  change (skip_ws (String " " tl)) with (skip_ws tl).
  cbv iota. change (Ascii.eqb ":" ":") with true. cbv iota.
  change (skip_ws (String " " tl)) with (skip_ws tl). rewrite Hv. reflexivity.
Qed.

Lemma members_last f k v s tl close tl' acc :
  blank close = true ->
  scanstring s = Some (k, String ":" (String " " tl)) ->
  scan_once f (skip_ws tl) = Some (v, close ++ String "}" tl')%string ->
  members (S f) (String dquote s) acc
  = Some (JObj (dict_of_pairs (acc ++ [(k, v)])), tl').
Proof.
  intros Hcl Hk Hv. rewrite members_step, Hk.
  change (skip_ws (String ":" (String " " tl))) with (String ":" (String " " tl)).
  cbv iota. change (Ascii.eqb ":" ":") with true. cbv iota.
  change (skip_ws (String " " tl)) with (skip_ws tl). rewrite Hv.
  rewrite (skip_ws_blank close (String "}" tl') Hcl). reflexivity.
Qed.

Lemma skip_ws_join sep lvl y ys r :
  skip_ws (join sep (map (encode ind lvl) (y :: ys)) ++ r)
  = (join sep (map (encode ind lvl) (y :: ys)) ++ r)%string.
Proof.
  destruct ys; cbn [map join];
    [apply skip_ws_encode | rewrite append_assoc; apply skip_ws_encode].
Qed.

Lemma elements_encoded xs :
  Forall (scans ind) xs ->
  forall lvl close acc fuel tl,
    xs <> [] ->
    forallb unique_keys xs = true ->
    blank close = true ->
    String.length (join ("," ++ newline_indent ind lvl) (map (encode ind lvl) xs))
      + S (String.length close) <= fuel ->
    elements fuel
             (join ("," ++ newline_indent ind lvl) (map (encode ind lvl) xs)
                ++ close ++ String "]" tl)
             acc
    = Some (JArr (acc ++ xs), tl).
Proof.
  induction 1 as [|x xs Hx Hxs IH]; intros lvl close acc fuel tl Hne Huk Hcl Hlen;
    [congruence|].
  cbn [forallb] in Huk. apply andb_true_iff in Huk as [Hukx Hukxs].
  pose proof (encode_length_pos lvl x) as Hpos.
  destruct xs as [|y ys].
  - cbn [map join] in *.
    destruct fuel as [|f]; [lia|].
    apply (elements_last f _ x close tl acc Hcl). apply Hx; [exact Hukx | lia].
  - change (join ("," ++ newline_indent ind lvl) (map (encode ind lvl) (x :: y :: ys)))
      with (encode ind lvl x ++ ("," ++ newline_indent ind lvl)
              ++ join ("," ++ newline_indent ind lvl)
                   (map (encode ind lvl) (y :: ys)))%string
      in *.
    rewrite !length_append in Hlen. rewrite !append_assoc.
    destruct fuel as [|f]; [lia|].
    rewrite (elements_more f _ x
               (newline_indent ind lvl ++ join ("," ++ newline_indent ind lvl)
                    (map (encode ind lvl) (y :: ys))
                    ++ close ++ String "]" tl) acc)
      by (apply Hx; [exact Hukx | lia]).
    rewrite skip_ws_blank, skip_ws_join by apply nli_blank.
    rewrite IH; [now rewrite <- app_assoc | discriminate | exact Hukxs | exact Hcl |].
    cbn [append String.length] in Hlen |- *. lia.
Qed.

Lemma member_text_shape lvl k v r :
  (member_text ind lvl (k, v) ++ r)%string
  = String dquote
      (escape k ++ String dquote (String ":" (String " " (encode ind lvl v ++ r)))).
Proof.
  unfold member_text, encode_basestring_ascii, str1. cbn [fst snd append].
  now rewrite !append_assoc.
Qed.

Lemma member_text_length lvl k v :
  String.length (member_text ind lvl (k, v))
  = String.length (escape k) + 4 + String.length (encode ind lvl v).
Proof.
  unfold member_text, encode_basestring_ascii, str1. cbn [fst snd].
  rewrite !length_append. cbn [String.length]. lia.
Qed.

Lemma skip_ws_members sep lvl m ms r :
  skip_ws (join sep (map (member_text ind lvl) (m :: ms)) ++ r)
  = (join sep (map (member_text ind lvl) (m :: ms)) ++ r)%string.
Proof.
  destruct m as [k v].
  destruct ms; cbn [map join]; rewrite ?append_assoc, member_text_shape;
    reflexivity.
Qed.

Lemma members_encoded ms :
  Forall (fun kv => scans ind (snd kv)) ms ->
  forall lvl close acc fuel tl,
    ms <> [] ->
    forallb (fun kv => unique_keys (snd kv)) ms = true ->
    blank close = true ->
    String.length (join ("," ++ newline_indent ind lvl) (map (member_text ind lvl) ms))
      + S (String.length close) <= fuel ->
    members fuel
            (join ("," ++ newline_indent ind lvl) (map (member_text ind lvl) ms)
               ++ close ++ String "}" tl)
            acc
    = Some (JObj (dict_of_pairs (acc ++ ms)), tl).
Proof.
  induction 1 as [|[k v] ms Hv Hms IH];
    intros lvl close acc fuel tl Hne Huk Hcl Hlen; [congruence|].
  cbn [forallb snd] in Huk, Hv. apply andb_true_iff in Huk as [Hukv Hukms].
  destruct ms as [|m ms].
  - cbn [map join] in *. rewrite member_text_length in Hlen.
    rewrite member_text_shape.
    destruct fuel as [|f]; [lia|].
    apply (members_last f k v _ _ close tl acc Hcl (scanstring_escape k _)).
    rewrite skip_ws_encode. apply Hv; [exact Hukv | lia].
  - change (join ("," ++ newline_indent ind lvl)
       (map (member_text ind lvl) ((k, v) :: m :: ms)))
      with (member_text ind lvl (k, v) ++ ("," ++ newline_indent ind lvl)
              ++ join ("," ++ newline_indent ind lvl)
                   (map (member_text ind lvl) (m :: ms)))%string
      in *.
    rewrite !length_append, member_text_length in Hlen.
    rewrite append_assoc, member_text_shape.
    destruct fuel as [|f]; [lia|].
    rewrite !append_assoc.
    rewrite (members_more f k v _ _
               (newline_indent ind lvl ++ join ("," ++ newline_indent ind lvl)
                    (map (member_text ind lvl) (m :: ms))
                    ++ close ++ String "}" tl) acc (scanstring_escape k _))
      by (rewrite skip_ws_encode; apply Hv; [exact Hukv | lia]).
    rewrite skip_ws_blank, skip_ws_members by apply nli_blank.
    rewrite IH; [now rewrite <- app_assoc | discriminate | exact Hukms | exact Hcl |].
    cbn [append String.length] in Hlen |- *. lia.
Qed.

(** Every document the encoder writes is read back by the scanner, given
    fuel for the length of the document. *)
Lemma scans_all j : scans ind j.
Proof.
  induction j as [|b|s|xs IH|ms IH] using jvalue_nested_ind;
    intros lvl tl fuel Huk Hlen.
  - destruct fuel as [|f]; [cbn in Hlen; lia | reflexivity].
  - destruct fuel as [|f]; [destruct b; cbn in Hlen; lia | destruct b; reflexivity].
  - destruct fuel as [|f]; [cbn in Hlen; lia|].
    cbn [encode]. unfold encode_basestring_ascii, str1. cbn [append].
    rewrite append_assoc, scan_once_string.
    change (String dquote EmptyString ++ tl)%string with (String dquote tl).
    rewrite scanstring_escape. reflexivity.
  - destruct xs as [|x xs].
    + destruct fuel as [|f]; [cbn in Hlen; lia | reflexivity].
    + change (encode ind lvl (JArr (x :: xs)))
        with (String "[" (newline_indent ind (S lvl)
                ++ join ("," ++ newline_indent ind (S lvl))
                     (map (encode ind (S lvl)) (x :: xs))
                ++ newline_indent ind lvl ++ "]"))%string in *.
      cbn [String.length] in Hlen. rewrite !length_append in Hlen.
      destruct fuel as [|f]; [lia|].
      rewrite append_cons, !append_assoc.
      rewrite scan_once_array, skip_ws_blank by apply nli_blank.
      rewrite skip_ws_join.
      destruct (encode_head (S lvl) x) as (c & r & Hc & Hws & Hbr).
      assert (Hhead : exists r',
                 (join ("," ++ newline_indent ind (S lvl))
                      (map (encode ind (S lvl)) (x :: xs))
                    ++ newline_indent ind lvl ++ "]" ++ tl)%string = String c r').
      { destruct xs; cbn [map join]; rewrite ?append_assoc, Hc; cbn [append]; eauto. }
      destruct Hhead as [r' Hr']. rewrite Hr', Hbr, <- Hr'.
      cbn [unique_keys] in Huk.
      apply (elements_encoded (x :: xs) IH (S lvl) (newline_indent ind lvl) [] f tl);
        [discriminate | exact Huk | apply nli_blank | cbn [String.length] in Hlen; lia].
  - cbn [unique_keys] in Huk. apply andb_true_iff in Huk as [Hkeys Huk].
    apply distinct_NoDup in Hkeys.
    destruct ms as [|m ms].
    + destruct fuel as [|f]; [cbn in Hlen; lia | reflexivity].
    + change (encode ind lvl (JObj (m :: ms)))
        with (String "{" (newline_indent ind (S lvl)
                ++ join ("," ++ newline_indent ind (S lvl))
                     (map (member_text ind (S lvl)) (m :: ms))
                ++ newline_indent ind lvl ++ "}"))%string in *.
      cbn [String.length] in Hlen. rewrite !length_append in Hlen.
      destruct fuel as [|f]; [lia|].
      rewrite append_cons, !append_assoc.
      rewrite scan_once_object, skip_ws_blank by apply nli_blank.
      rewrite skip_ws_members.
      assert (Hhead : exists r',
                 (join ("," ++ newline_indent ind (S lvl))
                      (map (member_text ind (S lvl)) (m :: ms))
                    ++ newline_indent ind lvl ++ "}" ++ tl)%string = String dquote r').
      { destruct m as [k v].
        destruct ms; cbn [map join]; rewrite ?append_assoc, member_text_shape; eauto. }
      destruct Hhead as [r' Hr']. rewrite Hr'.
      change (Ascii.eqb dquote "}") with false. cbv iota. rewrite <- Hr'.
      rewrite <- (dict_of_pairs_distinct (m :: ms) Hkeys) at 2.
      apply (members_encoded (m :: ms) IH (S lvl) (newline_indent ind lvl) [] f tl);
        [discriminate | exact Huk | apply nli_blank | cbn [String.length] in Hlen; lia].
Qed.

End Scanner.

(** The decoder on the encoder's text, white space after it allowed. *)
Lemma loads_encode_blank (ind ws : string) (j : jvalue) :
  blank ind = true ->
  blank ws = true ->
  unique_keys j = true ->
  loads (encode ind 0 j ++ ws) = Some j.
Proof.
  intros Hind Hws Huk. unfold loads.
  rewrite (skip_ws_encode ind 0 j).
  rewrite (scans_all ind Hind j 0 ws _ Huk) by (rewrite length_append; lia).
  rewrite <- (append_nil_r ws), skip_ws_blank by exact Hws. reflexivity.
Qed.

(** ** The characters the encoder writes *)

Section Ascii.

Lemma is_ascii_append (a b : string) :
  is_ascii (a ++ b) = is_ascii a && is_ascii b.
Proof.
  induction a as [|c a IH]; cbn [append is_ascii]; [reflexivity|].
  now rewrite IH, andb_assoc.
Qed.

Lemma is_ascii_repeat (s : string) n :
  is_ascii s = true -> is_ascii (repeat_str s n) = true.
Proof.
  intros H. induction n as [|n IH]; cbn [repeat_str]; [reflexivity|].
  now rewrite is_ascii_append, H, IH.
Qed.

Lemma is_ascii_join (sep : string) (parts : list string) :
  is_ascii sep = true ->
  Forall (fun s => is_ascii s = true) parts ->
  is_ascii (join sep parts) = true.
Proof.
  intros Hsep. induction 1 as [|x l Hx Hl IH]; [reflexivity|].
  destruct l as [|y l]; [exact Hx|].
  change (join sep (x :: y :: l)) with (x ++ sep ++ join sep (y :: l))%string.
  now rewrite !is_ascii_append, Hx, Hsep, IH.
Qed.

Lemma is_ascii_escape_char (c : ascii) : is_ascii (escape_char c) = true.
Proof. destruct c as [[] [] [] [] [] [] [] []]; reflexivity. Qed.

Lemma is_ascii_escape (s : string) : is_ascii (escape s) = true.
Proof.
  induction s as [|c s IH]; [reflexivity|].
  cbn [escape]. now rewrite is_ascii_append, is_ascii_escape_char, IH.
Qed.

Lemma is_ascii_basestring (s : string) :
  is_ascii (encode_basestring_ascii s) = true.
Proof.
  unfold encode_basestring_ascii.
  now rewrite !is_ascii_append, is_ascii_escape.
Qed.

Lemma is_ascii_encode (ind : string) (j : jvalue) :
  is_ascii ind = true -> forall lvl, is_ascii (encode ind lvl j) = true.
Proof.
  intros Hind.
  induction j as [|b|s|xs IH|ms IH] using jvalue_nested_ind; intros lvl.
  - reflexivity.
  - destruct b; reflexivity.
  - apply is_ascii_basestring.
  - destruct xs as [|x xs]; [reflexivity|].
    change (encode ind lvl (JArr (x :: xs)))
      with ("[" ++ (str1 newline ++ repeat_str ind (S lvl))
                ++ join ("," ++ str1 newline ++ repeat_str ind (S lvl))
                     (map (encode ind (S lvl)) (x :: xs))
                ++ (str1 newline ++ repeat_str ind lvl) ++ "]")%string.
    rewrite !is_ascii_append, !(is_ascii_repeat ind _ Hind), is_ascii_join;
      [reflexivity | |].
    + now rewrite !is_ascii_append, is_ascii_repeat.
    + apply Forall_map. eapply Forall_impl; [|exact IH]. intros a Ha. apply Ha.
  - destruct ms as [|m ms]; [reflexivity|].
    change (encode ind lvl (JObj (m :: ms)))
      with ("{" ++ (str1 newline ++ repeat_str ind (S lvl))
                ++ join ("," ++ str1 newline ++ repeat_str ind (S lvl))
                     (map (fun kv => encode_basestring_ascii (fst kv) ++ ": "
                                       ++ encode ind (S lvl) (snd kv))
                          (m :: ms))
                ++ (str1 newline ++ repeat_str ind lvl) ++ "}")%string.
    rewrite !is_ascii_append, !(is_ascii_repeat ind _ Hind), is_ascii_join;
      [reflexivity | |].
    + now rewrite !is_ascii_append, is_ascii_repeat.
    + apply Forall_map. eapply Forall_impl; [|exact IH]. intros a Ha.
      cbv beta. now rewrite !is_ascii_append, is_ascii_basestring, Ha.
Qed.

End Ascii.

(** ** Places of the store, documents of the units *)

Section Places.

Lemma nth_error_fresh {A} (h l : list A) k :
  nth_error (h ++ l) (length h + k) = nth_error l k.
Proof.
  rewrite nth_error_app2 by lia. f_equal. lia.
Qed.

(** The document of each unit in the layout of section 6. *)
Lemma encode_unit u :
  encode "  " 0 (table_json (dict_of_pairs (display_rows u)))
  = pretty_table (dict_of_pairs (display_rows u)).
Proof. destruct u; vm_compute; reflexivity. Qed.

End Places.

(** The place [n + k] of a store that extends one of length [n]. *)
Ltac place_after n :=
  match goal with
  | |- nth_error _ n = _ => rewrite <- (Nat.add_0_r n)
  | |- nth_error _ (S (S n)) = _ =>
      change (S (S n)) with (2 + n); rewrite (Nat.add_comm 2)
  | |- nth_error _ (S n) = _ =>
      change (S n) with (1 + n); rewrite (Nat.add_comm 1)
  end;
  rewrite nth_error_fresh; cbn [nth_error].

(** * Further properties of the scripts *)

(** X1.  A unit writes to standard output exactly when it is run as a
    program: the statements of its module leave standard output as it was
    if and only if the module name is not [__main__]. *)
Theorem prints_iff_main (u : unit_id) (name : string) (p : Process) :
  stdout (snd (script u name p)) = stdout p <-> name <> "__main__"%string.
Proof.
  split.
  - intros H ->. rewrite script_main_run in H.
    apply (f_equal String.length) in H.
    cbn [snd stdout] in H. rewrite !length_append in H.
    cbn [str1 String.length] in H. lia.
  - intros H. rewrite script_imported by now apply String.eqb_neq.
    reflexivity.
Qed.

(** X2.  A call of a selector does nothing but allocate: it writes nothing
    to standard output, leaves the arguments and the environment, and
    every object the store held stays at its place as it was. *)
Theorem selector_only_allocates (u : unit_id) (p : Process) :
  exists v p' new,
    selector u p = (inr v, p')
    /\ stdout p' = stdout p
    /\ argv p' = argv p
    /\ environ p' = environ p
    /\ heap p' = heap p ++ new
    /\ forall r o, nth_error (heap p) r = Some o -> nth_error (heap p') r = Some o.
Proof.
  rewrite selector_display, table_display_run.
  do 3 eexists. split; [reflexivity|].
  unfold with_heap. cbn [stdout argv environ heap].
  repeat (split; [reflexivity|]).
  intros r o Hr. rewrite nth_error_app1; [exact Hr|].
  apply nth_error_Some. congruence.
Qed.

(** X3.  What a selector returns is new: the dict is an object the call
    allocated, each of its values is a list the call allocated, no two
    keys share a list, and the lists hold texts only.  So the result
    shares no object with anything the process had, an earlier result
    included. *)
Theorem result_is_fresh (u : unit_id) (p : Process) :
  exists d items p',
    selector u p = (inr (VRef d), p')
    /\ length (heap p) <= d
    /\ nth_error (heap p') d = Some (ODict items)
    /\ NoDup (map snd items)
    /\ Forall (fun kv => exists r elems,
                   snd kv = VRef r
                   /\ length (heap p) <= r < d
                   /\ nth_error (heap p') r = Some (OList elems)
                   /\ Forall (fun v => exists s, v = VStr s) elems)
              items.
Proof.
  rewrite selector_display, table_display_run.
  exists (length (heap p) + length (display_rows u)).
  exists (dict_of_pairs (items_of (length (heap p)) (display_rows u))).
  eexists. split; [reflexivity|]. split; [lia|].
  unfold with_heap. cbn [heap].
  split; [|split].
  - rewrite nth_error_fresh.
    replace (length (display_rows u)) with (length (store_of (display_rows u)) + 0)
      by (unfold store_of; rewrite length_map; lia).
    now rewrite nth_error_fresh.
  - destruct u; cbn; repeat constructor; cbn; intuition (try congruence);
      match goal with H : VRef _ = VRef _ |- _ => injection H; lia end.
  - destruct u; cbn [display_rows]; cbn;
      repeat (constructor;
              [do 2 eexists; split; [reflexivity|]; split; [lia|]; split;
               [place_after (length (heap p)); reflexivity
               | repeat constructor; eexists; reflexivity]|]);
      constructor.
Qed.

(** X4.  The entry point adds to standard output and takes nothing away:
    after a run the output is what the process had written, then the
    table in the layout of section 6, then a newline; and a second run in
    the same process writes the same document once more. *)
Theorem entry_point_appends (u : unit_id) (p : Process) :
  exists t,
    returned_table (selector u) p = Some t
    /\ output (run_script (script u) p)
       = (stdout p ++ pretty_table t ++ str1 newline)%string
    /\ exists p'',
        (script u "__main__" ;;; script u "__main__") p = (inr tt, p'')
        /\ stdout p''
           = (stdout p ++ pretty_table t ++ str1 newline
                ++ pretty_table t ++ str1 newline)%string.
Proof.
  exists (dict_of_pairs (display_rows u)).
  rewrite returned_table_unit, run_script_unit, encode_unit.
  split; [reflexivity|]. split; [reflexivity|].
  eexists. rewrite (bind_ok (script_main_run u p)), script_main_run.
  split; [reflexivity|].
  cbn [stdout]. now rewrite encode_unit, !append_assoc.
Qed.

(** X5.  A dict display never yields a key twice: whatever items are
    written, when the display returns, the dict it has allocated has
    distinct keys, and they are the keys that were written. *)
Theorem dict_display_keys (kvs : list (string * M pyval)) (p p' : Process) (r : nat)
        (H : dict_display kvs p = (inr (VRef r), p')) :
  exists items,
    nth_error (heap p') r = Some (ODict items)
    /\ NoDup (map fst items)
    /\ forall k, In k (map fst items) <-> In k (map fst kvs).
Proof.
  unfold dict_display in H.
  apply bind_inr in H as (its & p1 & Hits & H).
  apply bind_inr in H as (d & p2 & Hd & H).
  unfold alloc in Hd. unfold ret in H. inversion Hd; inversion H; subst. cbn [heap].
  exists (dict_of_pairs its). split; [|split].
  - rewrite nth_error_app2, Nat.sub_diag by lia. reflexivity.
  - apply dict_of_pairs_keys.
  - intros k. rewrite <- (sequence_keys _ _ _ _ Hits). apply dict_of_pairs_keys.
Qed.

Lemma dict_display_keys_witness :
  exists items,
    nth_error [ODict [("a", VStr "3"); ("b", VStr "2")]] 0 = Some (ODict items)
    /\ NoDup (map fst items)
    /\ forall k, In k (map fst items) <-> In k ["a"; "b"; "a"]%string.
Proof.
  apply (dict_display_keys
           [("a", str "1"); ("b", str "2"); ("a", str "3")]%string
           (started [] [])
           (mkProcess [] [] [ODict [("a", VStr "3"); ("b", VStr "2")]] EmptyString)
           0).
  reflexivity.
Defined.

(** X6.  For every value of [None], booleans, texts of one-byte characters
    (below U+0100), lists and dicts, what [json.dumps] returns has ASCII
    characters only, and the call leaves the process as it was. *)
Theorem dumps_ascii (v : pyval) (n : nat) (p p' : Process) (s : string)
        (H : dumps v n p = (inr s, p')) :
  is_ascii s = true /\ p' = p.
Proof.
  unfold dumps in H. destruct (snapshot p v) as [e|j]; [discriminate|].
  unfold ret in H. inversion H; subst. split; [|reflexivity].
  apply is_ascii_encode, is_ascii_repeat. reflexivity.
Qed.

Lemma dumps_ascii_witness :
  is_ascii (encode "  " 0 (JArr [JStr (String (ascii_of_nat 233) "t")])) = true
  /\ mkProcess [] [] [OList [VStr (String (ascii_of_nat 233) "t")]] EmptyString
     = mkProcess [] [] [OList [VStr (String (ascii_of_nat 233) "t")]] EmptyString.
Proof.
  apply (dumps_ascii (VRef 0) 2
           (mkProcess [] [] [OList [VStr (String (ascii_of_nat 233) "t")]]
                      EmptyString)).
  reflexivity.
Defined.

(** X7.  What [json.dumps] returns, [json.loads] reads back.  For every
    value of [None], booleans, texts of one-byte characters, lists and
    dicts that is nested no deeper than [nesting_bound] and whose dicts
    have distinct keys, and every number of spaces: when the call returns
    a text, decoding that text, with or without the newline [print] adds,
    gives the structure of the value. *)
Theorem dumps_loads (v : pyval) (n : nat) (p p' : Process) (s : string)
        (j : jvalue)
        (H : dumps v n p = (inr s, p'))
        (Hj : snapshot p v = inr j)
        (Huk : unique_keys j = true)
        (Hd : depth j <= nesting_bound) :
  loads s = Some j /\ loads (s ++ str1 newline) = Some j.
Proof.
  unfold dumps in H. rewrite Hj in H. unfold ret in H.
  inversion H; subst; clear H.
  assert (Hb : blank (repeat_str " " n) = true) by (apply blank_repeat; reflexivity).
  split.
  - rewrite <- (append_nil_r (encode (repeat_str " " n) 0 j)).
    now apply loads_encode_blank.
  - now apply loads_encode_blank.
Qed.

Lemma dumps_loads_witness :
  loads (encode "    " 0
           (JObj [("k", JArr [JStr (String dquote (String backslash "a")); JNull]);
                  ("e", JBool true)]))
  = Some (JObj [("k", JArr [JStr (String dquote (String backslash "a")); JNull]);
                ("e", JBool true)])
  /\ loads (encode "    " 0
              (JObj [("k", JArr [JStr (String dquote (String backslash "a")); JNull]);
                     ("e", JBool true)])
            ++ str1 newline)
     = Some (JObj [("k", JArr [JStr (String dquote (String backslash "a")); JNull]);
                   ("e", JBool true)]).
Proof.
  apply (dumps_loads (VRef 1) 4
           (mkProcess [] []
                      [OList [VStr (String dquote (String backslash "a")); VNone];
                       ODict [("k", VRef 0); ("e", VBool true)]]
                      EmptyString)
           (mkProcess [] []
                      [OList [VStr (String dquote (String backslash "a")); VNone];
                       ODict [("k", VRef 0); ("e", VBool true)]]
                      EmptyString));
    [reflexivity | reflexivity | reflexivity | vm_compute; lia].
Defined.
